(** * file2png: a file as a square black-and-white bitmap, and back

    Shallow embedding of [file2png.py] and the properties of its bitmap
    codec and of its archive policy.

    Conventions of the embedding.
    - A Python [bytes]/[bytearray] is a [list byte]; the integers obtained
      by iterating over it are in [Z].
    - A Python [str] holding bits is a [list ascii]; paths are [string]s.
    - In the pure stages a raised exception is [None]; the stages that
      read and write run in [IO], a state monad on the [World] with
      exceptions, in which the [try/except] handlers of the program are
      written out.
    - A PIL image of mode ['L'] is its size and its row-major raster. *)

From Stdlib Require Import ZArith List Ascii String Lia.
From Stdlib.Strings Require Import Byte.
From stdpp Require Import base option list gmap strings fin_maps.

Local Open Scope Z_scope.

(** ** Fixed configuration (lines 15-18) *)

Definition WHITE : Z := 255.
Definition BLACK : Z := 0.
Definition GRAY_PADDING : Z := 127.
Definition BITS_PER_BYTE : nat := 8.

(** ** Python built-ins used by the program *)

Module Py.

(** [for x in xs: s = body(s, x)], where the body may raise. *)
Fixpoint for_each {S A : Type} (body : S -> A -> option S) (s : S)
    (xs : list A) : option S :=
  match xs with
  | [] => Some s
  | x :: xs' =>
      match body s x with
      | Some s' => for_each body s' xs'
      | None => None
      end
  end.

(** [range(n)]. *)
Definition range (n : nat) : list nat := seq 0 n.

(** [range(start, stop, step)] for a positive [step]. *)
Definition range3 (start stop step : nat) : list nat :=
  map (fun k => start + k * step)%nat
      (seq 0 ((stop - start + (step - 1)) / step)%nat).

(** Binary digits of a positive number, most significant first. *)
Fixpoint pos_digits (p : positive) (acc : list ascii) : list ascii :=
  match p with
  | xH => "1"%char :: acc
  | xO q => pos_digits q ("0"%char :: acc)
  | xI q => pos_digits q ("1"%char :: acc)
  end.

(** [bin(v)]: ['0b...'], with a leading ['-'] for a negative number. *)
Definition bin (v : Z) : list ascii :=
  match v with
  | Z0 => ["0"; "b"; "0"]%char
  | Zpos p => "0"%char :: "b"%char :: pos_digits p []
  | Zneg p => "-"%char :: "0"%char :: "b"%char :: pos_digits p []
  end.

(** [s.zfill(width)]: zeros on the left, after a leading sign. *)
Definition zfill (width : nat) (s : list ascii) : list ascii :=
  if (width <=? length s)%nat then s
  else
    let zeros := replicate (width - length s) "0"%char in
    match s with
    | c :: rest =>
        if (Ascii.eqb c "+" || Ascii.eqb c "-")%bool
        then c :: zeros ++ rest
        else zeros ++ s
    | [] => zeros
    end.

(** [s.ljust(width, fill)]. *)
Definition ljust (width : nat) (fill : ascii) (s : list ascii) : list ascii :=
  s ++ replicate (width - length s) fill.

(** [s[i:j]] for non-negative [i] and [j]. *)
Definition slice {A : Type} (s : list A) (i j : nat) : list A :=
  take (j - i) (drop i s).

(** [int(s, 2)] on a string of binary digits.  The empty string and any
    character other than ['0'] and ['1'] are a [ValueError]; the sign,
    prefix, underscores and blanks that Python also accepts never reach
    this call, since [decode_png] builds its argument from ['0'] and
    ['1'] only. *)
Fixpoint int2_digits (acc : Z) (s : list ascii) : option Z :=
  match s with
  | [] => Some acc
  | c :: rest =>
      if Ascii.eqb c "0" then int2_digits (2 * acc) rest
      else if Ascii.eqb c "1" then int2_digits (2 * acc + 1) rest
      else None
  end.

Definition int2 (s : list ascii) : option Z :=
  match s with
  | [] => None
  | _ => int2_digits 0 s
  end.

(** [bytearray.append(v)]: a [ValueError] outside [range(256)]. *)
Definition bytearray_append (data : list byte) (v : Z) : option (list byte) :=
  if v <? 0 then None
  else match Byte.of_N (Z.to_N v) with
       | Some b => Some (data ++ [b])
       | None => None
       end.

(** The integer that iterating over [bytes] yields for one byte. *)
Definition byte_val (b : byte) : Z := Z.of_N (Byte.to_N b).

(** [math.ceil(math.sqrt(n))].  The program computes the root in double
    precision; the rounded root has the same ceiling as the real one for
    every [n] below [2^52], far above the length of any bit string the
    program can hold, so the integer ceiling root is taken here. *)
Definition ceil_sqrt (n : nat) : nat :=
  let r := Nat.sqrt n in
  if (r * r =? n)%nat then r else S r.

End Py.

(** ** PIL images of mode ['L'] *)

Record Image := mkImage {
  im_width : nat;
  im_height : nat;
  im_data : list Z   (* row-major: pixel (x, y) at index y * width + x *)
}.

(** The raster has one value per pixel. *)
Definition image_wf (img : Image) : Prop :=
  length (im_data img) = (im_height img * im_width img)%nat.

(** [Image.new('L', (w, h))]: every pixel 0. *)
Definition Image_new (w h : nat) : Image :=
  mkImage w h (replicate (h * w) 0).

Definition in_image (img : Image) (x y : nat) : bool :=
  ((x <? im_width img) && (y <? im_height img))%nat.

(** [pixels[x, y] = v]; an [IndexError] outside the image. *)
Definition putpixel (img : Image) (x y : nat) (v : Z) : option Image :=
  if in_image img x y
  then Some (mkImage (im_width img) (im_height img)
                     (<[(y * im_width img + x)%nat := v]> (im_data img)))
  else None.

(** [img.getpixel((x, y))]; an [IndexError] outside the image. *)
Definition getpixel (img : Image) (x y : nat) : option Z :=
  if in_image img x y
  then im_data img !! (y * im_width img + x)%nat
  else None.

(** ** Bitmap codec: the packing stage of [encode_file] (lines 62-84) *)

(** Line 66: [bin(byte_val)[2:].zfill(BITS_PER_BYTE)]. *)
Definition byte_bits (v : Z) : list ascii :=
  Py.zfill BITS_PER_BYTE (drop 2 (Py.bin v)).

(** Lines 62-66: the bit string of the byte stream. *)
Definition bits_of_bytes (binary_data : list byte) : list ascii :=
  fold_left (fun image_bits b => image_bits ++ byte_bits (Py.byte_val b))
            binary_data [].

(** Lines 79-84: the body of the inner loop; the state is [(index, img)]. *)
Definition draw_pixel (image_bits : list ascii) (num_bits y : nat)
    (st : nat * Image) (x : nat) : option (nat * Image) :=
  let '(index, img) := st in
  if (index <? num_bits)%nat then
    bit ← image_bits !! index;
    img' ← putpixel img x y (if Ascii.eqb bit "1" then WHITE else BLACK);
    Some (S index, img')
  else
    img' ← putpixel img x y GRAY_PADDING;
    Some (index, img').

(** Lines 76-84: the two nested loops. *)
Definition draw_pixels (image_bits : list ascii) (num_bits side : nat)
    (img : Image) : option (nat * Image) :=
  Py.for_each
    (fun st y => Py.for_each (draw_pixel image_bits num_bits y) st (Py.range side))
    (0%nat, img) (Py.range side).

(** Lines 69-84: dimensions, allocation and drawing. *)
Definition draw_bits (image_bits : list ascii) : option Image :=
  let num_bits := length image_bits in
  let side := Py.ceil_sqrt num_bits in
  snd <$> draw_pixels image_bits num_bits side (Image_new side side).

(** [pack]: lines 62-84 of [encode_file]. *)
Definition pack (binary_data : list byte) : option Image :=
  draw_bits (bits_of_bytes binary_data).

(** ** Bitmap codec: the unpacking stage of [decode_png] (lines 105-129) *)

(** Lines 111-113: the body of the inner loop. *)
Definition scan_pixel (img : Image) (y : nat) (read_bits : list ascii)
    (x : nat) : option (list ascii) :=
  val ← getpixel img x y;
  Some (if val =? BLACK then read_bits ++ ["0"%char]
        else if val =? WHITE then read_bits ++ ["1"%char]
        else read_bits).

(** Lines 105-113: the row-major scan. *)
Definition scan_bits (img : Image) : option (list ascii) :=
  Py.for_each
    (fun read_bits y =>
       Py.for_each (scan_pixel img y) read_bits (Py.range (im_width img)))
    [] (Py.range (im_height img)).

(** Lines 123-127: the block at offset [i], padded on the right. *)
Definition block_at (read_bits : list ascii) (i : nat) : list ascii :=
  let block := Py.slice read_bits i (i + BITS_PER_BYTE) in
  if (length block <? BITS_PER_BYTE)%nat
  then Py.ljust BITS_PER_BYTE "0" block
  else block.

(** Lines 123-129: the body of the loop over the blocks. *)
Definition append_block (read_bits : list ascii) (bytes_data : list byte)
    (i : nat) : option (list byte) :=
  v ← Py.int2 (block_at read_bits i);
  Py.bytearray_append bytes_data v.

(** Lines 121-129: the bytes of the bit string. *)
Definition bytes_of_bits (read_bits : list ascii) : option (list byte) :=
  Py.for_each (append_block read_bits) []
    (Py.range3 0 (length read_bits) BITS_PER_BYTE).

(** What the unpacking stage hands on. *)
Inductive Unpacked :=
| EmptyOrInvalidImage            (* line 116-118: no bit was read *)
| Bytes (bytes_data : list byte).

(** [unpack]: lines 105-129 of [decode_png]; [None] is a raised exception. *)
Definition unpack (img : Image) : option Unpacked :=
  read_bits ← scan_bits img;
  match read_bits with
  | [] => Some EmptyOrInvalidImage
  | _ => Bytes <$> bytes_of_bits read_bits
  end.


(** ** Auxiliary notions for the statements *)

(** The pixel value of a bit character (line 81). *)
Definition pixel_of_bit (c : ascii) : Z :=
  if Ascii.eqb c "1" then WHITE else BLACK.

(** The value the drawing loop gives to the pixel at row-major index [i]. *)
Definition drawn_pixel (image_bits : list ascii) (i : nat) : Z :=
  match image_bits !! i with
  | Some bit => pixel_of_bit bit
  | None => GRAY_PADDING
  end.

(** State of the drawing after the first [p] row-major positions. *)
Definition drawn (image_bits : list ascii) (side p : nat)
    (st : nat * Image) : Prop :=
  st.1 = (p `min` length image_bits)%nat /\
  im_width st.2 = side /\ im_height st.2 = side /\
  length (im_data st.2) = (side * side)%nat /\
  forall i, (i < p)%nat -> im_data st.2 !! i = Some (drawn_pixel image_bits i).

(** The raster that [draw_bits] leaves: the bits, then the padding. *)
Definition drawn_data (image_bits : list ascii) (side : nat) : list Z :=
  map pixel_of_bit image_bits ++
  replicate (side * side - length image_bits) GRAY_PADDING.

(** The eight characters of [v], the most significant bit first. *)
Definition msb_first (v : Z) : list ascii :=
  map (fun i : nat =>
         if Z.land (Z.shiftr v (7 - Z.of_nat i)) 1 =? 1
         then "1"%char else "0"%char)
      (seq 0 8).

(** What one pixel adds to [read_bits] (lines 112-114). *)
Definition pixel_chars (val : Z) : list ascii :=
  if val =? BLACK then ["0"%char]
  else if val =? WHITE then ["1"%char]
  else [].

(** What a run of pixels adds to [read_bits]. *)
Definition scanned (vals : list Z) : list ascii :=
  concat (map pixel_chars vals).

Definition is_bit (c : ascii) : Prop := c = "0"%char \/ c = "1"%char.

(** Zeros that complete a bit string to whole blocks. *)
Definition block_padding (n : nat) : list ascii :=
  replicate ((8 - n mod 8) mod 8)%nat "0"%char.

(** Line 129: the byte of one block, when [int] and [append] accept it. *)
Definition block_byte (block : list ascii) : option byte :=
  v ← Py.int2 block;
  if v <? 0 then None else Byte.of_N (Z.to_N v).

(** ** The world of the program: files, images, directories, console *)

(** The lines the program prints. *)
Inductive Message :=
| MsgProcessing (file_path : string)                  (* line 41 *)
| MsgAlreadyZip                                       (* line 46 *)
| MsgCompressing                                      (* line 52 *)
| MsgCompressedSize (size : nat)                      (* line 58 *)
| MsgGenerating                                       (* line 61 *)
| MsgSaved (png_dest_path : string) (side : nat)      (* line 91 *)
| MsgEncodingError                                    (* line 94 *)
| MsgReading (png_path : string)                      (* line 101 *)
| MsgEmptyImage                                       (* line 117 *)
| MsgExtracting                                       (* line 134 *)
| MsgRecovered (dest_folder : string) (names : list string)  (* line 145 *)
| MsgBadZip                                           (* line 147 *)
| MsgDecodingError.                                   (* line 150 *)

(** Regular files hold bytes; a PNG file is kept as the raster that
    [Image.open(...).convert('L')] reads from it, PNG being lossless. *)
Record World := mkWorld {
  files : gmap string (list byte);
  images : gmap string Image;
  dirs : gset string;
  console : list Message
}.

(** [zipfile.BadZipFile], and every other exception. *)
Inductive Exn := BadZipFile | OtherException.

(** A computation that changes the world and returns or raises; what it
    did before raising stays done. *)
Definition IO (A : Type) : Type := World -> World * (Exn + A).

Definition io_ret {A : Type} (a : A) : IO A := fun w => (w, inr a).

Definition io_bind {A B : Type} (k : A -> IO B) (m : IO A) : IO B :=
  fun w =>
    match m w with
    | (w', inr a) => k a w'
    | (w', inl e) => (w', inl e)
    end.

#[global] Instance IO_ret : MRet IO := @io_ret.
#[global] Instance IO_bind : MBind IO := @io_bind.

Definition raise {A : Type} (e : Exn) : IO A := fun w => (w, inl e).

(** A pure step that may raise an exception other than [BadZipFile]. *)
Definition lift {A : Type} (r : option A) : IO A :=
  match r with
  | Some a => mret a
  | None => raise OtherException
  end.

(** [try: body / except Exception: handler]. *)
Definition try_except (body handler : IO unit) : IO unit :=
  fun w =>
    match body w with
    | (w', inl _) => handler w'
    | r => r
    end.

(** [try: body / except zipfile.BadZipFile: handler]. *)
Definition try_except_BadZipFile (body handler : IO unit) : IO unit :=
  fun w =>
    match body w with
    | (w', inl BadZipFile) => handler w'
    | r => r
    end.

Definition print (m : Message) : IO unit :=
  fun w => (mkWorld (files w) (images w) (dirs w) (console w ++ [m]), inr tt).

(** [open(path, 'rb').read()]. *)
Definition read_file (path : string) : IO (list byte) :=
  fun w => lift (files w !! path) w.

(** Whether a directory, a file or an image has this path. *)
Definition has_path (w : World) (path : string) : bool :=
  bool_decide (path ∈ dirs w)
  || bool_decide (is_Some (files w !! path))
  || bool_decide (is_Some (images w !! path)).

(** [os.path.exists(path)]. *)
Definition path_exists (path : string) : IO bool :=
  fun w => (w, inr (has_path w path)).

(** [os.makedirs(path)], called on a path that does not exist. *)
Definition makedirs (path : string) : IO unit :=
  fun w => (mkWorld (files w) (images w) ({[path]} ∪ dirs w) (console w), inr tt).

Definition write_file (path : string) (contents : list byte) : IO unit :=
  fun w => (mkWorld (<[path := contents]> (files w)) (images w) (dirs w)
                    (console w), inr tt).

(** [Image.open(path).convert('L')]. *)
Definition open_image (path : string) : IO Image :=
  fun w => lift (images w !! path) w.

(** [img.save(path)]; PIL refuses to encode an image without pixels. *)
Definition save_image (path : string) (img : Image) : IO unit :=
  fun w =>
    if ((im_width img =? 0) || (im_height img =? 0))%nat
    then (w, inl OtherException)
    else (mkWorld (files w) (<[path := img]> (images w)) (dirs w) (console w),
          inr tt).

(** ** The [zipfile] module

    The archive format is the library's; the program relies on three of
    its operations, taken here as an interface. *)
Class ZipFile := {
  (** The bytes of the archive that [ZipFile(buffer, 'w', ZIP_DEFLATED)]
      holds after one [write(file, arcname)] of a file with the given
      contents. *)
  zip_single : string -> list byte -> list byte;
  (** The entries, in order, that [ZipFile(buffer, 'r')] finds;
      [None] when it raises [BadZipFile]. *)
  zip_entries : list byte -> option (list (string * list byte));
  (** The path at which [extractall(path)] writes the entry of a name. *)
  zip_target : string -> string -> string
}.

(** ** Paths and strings of the standard library (POSIX flavour) *)

Definition str_lower_char (c : ascii) : ascii :=
  let n := nat_of_ascii c in
  if ((65 <=? n) && (n <=? 90))%nat then ascii_of_nat (n + 32) else c.

(** [s.lower()] on ASCII letters. *)
Definition str_lower (s : string) : string :=
  string_of_list_ascii (map str_lower_char (list_ascii_of_string s)).

(** The characters after the last [sep], all of them when there is none. *)
Fixpoint after_last (sep : ascii) (s : list ascii) : list ascii :=
  match s with
  | [] => []
  | c :: rest =>
      if existsb (Ascii.eqb sep) rest then after_last sep rest
      else if Ascii.eqb c sep then rest else s
  end.

(** [os.path.basename(p)]. *)
Definition basename (p : string) : string :=
  string_of_list_ascii (after_last "/" (list_ascii_of_string p)).

(** [os.path.splitext(p)[1]]: from the last dot of the last component,
    unless only dots precede it there. *)
Definition splitext_ext (p : string) : string :=
  let name := after_last "/" (list_ascii_of_string p) in
  let ext := after_last "." name in
  let stem := take (length name - length ext - 1) name in
  if existsb (Ascii.eqb ".") name
     && existsb (fun c => negb (Ascii.eqb c ".")) stem
  then string_of_list_ascii ("."%char :: ext)
  else EmptyString.

(** [s.endswith(suffix)]. *)
Definition endswith (s suffix : string) : bool :=
  let l := list_ascii_of_string s in
  let x := list_ascii_of_string suffix in
  bool_decide (drop (length l - length x) l = x).

(** ** The program *)

Section Program.
Context `{ZipFile}.

(** [wrap]: lines 38-58 of [encode_file]. *)
Definition wrap (file_path : string) : IO (list byte) :=
  let ext := str_lower (splitext_ext file_path) in
  if String.eqb ext ".zip" then
    print MsgAlreadyZip ;;
    read_file file_path
  else
    print MsgCompressing ;;
    let clean_name := basename file_path in
    contents ← read_file file_path;
    let binary_data := zip_single clean_name contents in
    print (MsgCompressedSize (length binary_data)) ;;
    mret binary_data.

(** Lines 37-94. *)
Definition encode_file (file_path png_dest_path : string) : IO unit :=
  print (MsgProcessing file_path) ;;
  try_except
    (binary_data ← wrap file_path;
     print MsgGenerating ;;
     img ← lift (pack binary_data);
     let png_dest_path :=
       if endswith (str_lower png_dest_path) ".png" then png_dest_path
       else (png_dest_path ++ ".png")%string in
     save_image png_dest_path img ;;
     print (MsgSaved png_dest_path (im_width img)))
    (print MsgEncodingError).

(** [zf.extractall(path=dest_folder)]. *)
Fixpoint extractall (zf : list (string * list byte)) (dest_folder : string)
    : IO unit :=
  match zf with
  | [] => mret tt
  | (name, contents) :: rest =>
      write_file (zip_target dest_folder name) contents ;;
      extractall rest dest_folder
  end.

(** Line 142: [zipfile.ZipFile(memory_buffer, 'r')]. *)
Definition open_zip (bytes_data : list byte) : IO (list (string * list byte)) :=
  match zip_entries bytes_data with
  | Some zf => mret zf
  | None => raise BadZipFile
  end.

(** [unwrap]: lines 134-147 of [decode_png]. *)
Definition unwrap (bytes_data : list byte) (dest_folder : string) : IO unit :=
  print MsgExtracting ;;
  found ← path_exists dest_folder;
  (if negb found then makedirs dest_folder else mret tt) ;;
  try_except_BadZipFile
    (zf ← open_zip bytes_data;
     extractall zf dest_folder ;;
     print (MsgRecovered dest_folder (map fst zf)))
    (print MsgBadZip).

(** Lines 100-150. *)
Definition decode_png (png_path dest_folder : string) : IO unit :=
  print (MsgReading png_path) ;;
  try_except
    (img ← open_image png_path;
     unpacked ← lift (unpack img);
     match unpacked with
     | EmptyOrInvalidImage => print MsgEmptyImage
     | Bytes bytes_data => unwrap bytes_data dest_folder
     end)
    (print MsgDecodingError).


End Program.

(** A stand-in archive format, to run the program on examples: the
    letters PK, the name of the one entry, a zero byte, its contents. *)
Fixpoint split_at_zero (l : list byte) : option (list byte * list byte) :=
  match l with
  | [] => None
  | b :: rest =>
      if Byte.eqb b "000"%byte then Some ([], rest)
      else match split_at_zero rest with
           | Some (name, contents) => Some (b :: name, contents)
           | None => None
           end
  end.

Definition stored_single (name : string) (contents : list byte) : list byte :=
  list_byte_of_string "PK" ++ list_byte_of_string name ++ ["000"%byte] ++ contents.

Definition stored_entries (l : list byte) : option (list (string * list byte)) :=
  match l with
  | "P"%byte :: "K"%byte :: rest =>
      match split_at_zero rest with
      | Some (name, contents) => Some [(string_of_list_byte name, contents)]
      | None => None
      end
  | _ => None
  end.

Definition StoredZip : ZipFile :=
  {| zip_single := stored_single;
     zip_entries := stored_entries;
     zip_target := fun dest name => (dest ++ "/" ++ name)%string |}.

Definition empty_world : World := mkWorld ∅ ∅ ∅ [].


(** ** Auxiliary notions for the statements on files *)

(** Lines 87-88: the path the image is saved under. *)
Definition png_dest (png_dest_path : string) : string :=
  if endswith (str_lower png_dest_path) ".png" then png_dest_path
  else (png_dest_path ++ ".png")%string.



(** A pixel that carries a bit. *)
Definition is_data (val : Z) : Prop := val = BLACK \/ val = WHITE.

(** The world after one more printed line. *)
Definition printed (w : World) (ms : list Message) : World :=
  mkWorld (files w) (images w) (dirs w) (console w ++ ms).

(** ** Proof steps used more than once *)

(** Cases on the first character of a string of binary digits. *)
Ltac bit_cases H :=
  let Hc := fresh "Hc" in
  apply Forall_cons_1 in H as [[Hc|Hc] H]; rewrite Hc; clear Hc.

(** Runs the steps of an [IO] computation on the world at hand. *)
Ltac run_io :=
  unfold mbind, mret, IO_bind, IO_ret, io_bind, io_ret, try_except,
    try_except_BadZipFile, print, read_file, open_image, path_exists,
    makedirs, raise, lift; simpl.

(** ** The program on examples *)

Example pack_A :
  pack ["A"%byte] =
  Some (mkImage 3 3 [BLACK; WHITE; BLACK; BLACK; BLACK; BLACK; BLACK; WHITE;
                     GRAY_PADDING]).
Proof. reflexivity. Qed.

Example unpack_pack_A :
  pack ["A"%byte] ≫= unpack = Some (Bytes ["A"%byte]).
Proof. reflexivity. Qed.

Example splitext_examples :
  map splitext_ext
      ["a/b.c/data.ZIP"; ".bashrc"; "a.b/c"; "x.tar.gz"; "dir/..zip"]%string
  = [".ZIP"; ""; ""; ".gz"; ""]%string.
Proof. reflexivity. Qed.

Example basename_examples :
  map basename ["a/b.c/data.ZIP"; "plain"; "a/"]%string
  = ["data.ZIP"; "plain"; ""]%string.
Proof. reflexivity. Qed.

Example encode_decode_txt :
  let w0 := mkWorld {["docs/a.txt"%string := ["h"; "i"]%byte]} ∅ ∅ [] in
  let w1 := (encode_file (H := StoredZip) "docs/a.txt" "img" w0).1 in
  let w2 := (decode_png (H := StoredZip) "img.png" "out" w1).1 in
  files w2 !! "out/a.txt"%string = Some ["h"; "i"]%byte /\
  console w2 = [MsgProcessing "docs/a.txt"; MsgCompressing; MsgCompressedSize 10;
                MsgGenerating; MsgSaved "img.png" 9; MsgReading "img.png";
                MsgExtracting; MsgRecovered "out" ["a.txt"%string]].
Proof. vm_compute. split; reflexivity. Qed.

(** * Properties *)
(** * Properties *)

(** ** Loops *)

Lemma for_each_app {S A : Type} (body : S -> A -> option S) s xs ys :
  Py.for_each body s (xs ++ ys) =
  Py.for_each body s xs ≫= fun s' => Py.for_each body s' ys.
Proof.
  revert s. induction xs as [|x xs IH]; intros s; simpl; [done|].
  destruct (body s x); simpl; [apply IH | done].
Qed.

(** A loop whose body keeps an invariant indexed by the loop counter. *)
Lemma for_each_seq_inv {S : Type} (body : S -> nat -> option S)
    (I : nat -> S -> Prop) (a k : nat) (s : S) :
  (forall i s0, (a <= i < a + k)%nat -> I i s0 ->
     exists s1, body s0 i = Some s1 /\ I (Datatypes.S i) s1) ->
  I a s ->
  exists s', Py.for_each body s (seq a k) = Some s' /\ I (a + k)%nat s'.
Proof.
  revert a s. induction k as [|k IH]; intros a s Hbody Ha; simpl.
  - exists s. by rewrite Nat.add_0_r.
  - destruct (Hbody a s) as (s1 & -> & H1); [lia | done |].
    destruct (IH (Datatypes.S a) s1) as (s' & -> & H'); [| done |].
    + intros i s0 Hi. apply Hbody. lia.
    + exists s'. split; [done|]. by replace (a + Datatypes.S k)%nat
        with (Datatypes.S a + k)%nat by lia.
Qed.

(** ** The side of the square *)

Lemma ceil_sqrt_ge (n : nat) : (n <= Py.ceil_sqrt n * Py.ceil_sqrt n)%nat.
Proof.
  unfold Py.ceil_sqrt. pose proof (Nat.sqrt_spec n ltac:(lia)) as [Hlo Hhi].
  simpl. destruct (Nat.eqb_spec (Nat.sqrt n * Nat.sqrt n) n); lia.
Qed.

Lemma ceil_sqrt_minimal (n : nat) :
  (0 < n -> (Py.ceil_sqrt n - 1) * (Py.ceil_sqrt n - 1) < n)%nat.
Proof.
  intros Hn. unfold Py.ceil_sqrt.
  pose proof (Nat.sqrt_spec n ltac:(lia)) as [Hlo Hhi]. simpl.
  destruct (Nat.eqb_spec (Nat.sqrt n * Nat.sqrt n) n) as [He|Hne].
  - destruct (Nat.sqrt n) as [|r]; [simpl in He; lia|].
    replace (Datatypes.S r - 1)%nat with r by lia. nia.
  - replace (Datatypes.S (Nat.sqrt n) - 1)%nat with (Nat.sqrt n) by lia. lia.
Qed.

(** ** Drawing *)



Section Drawing.
Variable image_bits : list ascii.
Variable side : nat.

Lemma draw_pixel_drawn y x st :
  (y < side)%nat -> (x < side)%nat ->
  drawn image_bits side (y * side + x) st ->
  exists st', draw_pixel image_bits (length image_bits) y st x = Some st' /\
              drawn image_bits side (y * side + Datatypes.S x) st'.
Proof.
  intros Hy Hx. destruct st as [index img].
  intros (Hidx & Hw & Hh & Hlen & Hpix); simpl in *.
  assert (Hin : in_image img x y = true).
  { unfold in_image. rewrite Hw, Hh.
    apply andb_true_iff; split; apply Nat.ltb_lt; lia. }
  assert (Hp : (y * side + x < side * side)%nat) by nia.
  unfold draw_pixel, putpixel. rewrite Hin, Hw.
  destruct (Nat.ltb_spec index (length image_bits)) as [Hlt|Hge].
  - assert (index = (y * side + x)%nat) as -> by lia.
    destruct (lookup_lt_is_Some_2 image_bits (y * side + x)%nat Hlt)
      as [bit Hbit].
    rewrite Hbit. simpl. eexists; split; [done|].
    repeat split; simpl; [lia | done | by rewrite length_insert |].
    intros i Hi. destruct (decide (i = (y * side + x)%nat)) as [->|Hne].
    + rewrite list_lookup_insert_eq by lia.
      unfold drawn_pixel. by rewrite Hbit.
    + rewrite list_lookup_insert_ne by done. apply Hpix. lia.
  - simpl. eexists; split; [done|].
    repeat split; simpl; [lia | done | by rewrite length_insert |].
    intros i Hi. destruct (decide (i = (y * side + x)%nat)) as [->|Hne].
    + rewrite list_lookup_insert_eq by lia.
      unfold drawn_pixel. rewrite lookup_ge_None_2; [done|]. lia.
    + rewrite list_lookup_insert_ne by done. apply Hpix. lia.
Qed.

Lemma draw_row_drawn y st :
  (y < side)%nat ->
  drawn image_bits side (y * side) st ->
  exists st',
    Py.for_each (draw_pixel image_bits (length image_bits) y) st (Py.range side) = Some st' /\
    drawn image_bits side (Datatypes.S y * side) st'.
Proof.
  intros Hy Hst.
  destruct (for_each_seq_inv (draw_pixel image_bits (length image_bits) y)
              (fun x => drawn image_bits side (y * side + x)) 0 side st) as (st' & Hrun & Hst').
  - intros x s0 Hx Hs0. apply draw_pixel_drawn; [done | lia | done].
  - by rewrite Nat.add_0_r.
  - exists st'. split; [done|].
    by replace (Datatypes.S y * side)%nat with (y * side + (0 + side))%nat by lia.
Qed.

Lemma draw_pixels_drawn img :
  im_width img = side -> im_height img = side ->
  length (im_data img) = (side * side)%nat ->
  exists st', draw_pixels image_bits (length image_bits) side img = Some st' /\
              drawn image_bits side (side * side) st'.
Proof.
  intros Hw Hh Hlen. unfold draw_pixels.
  destruct (for_each_seq_inv
              (fun st y => Py.for_each (draw_pixel image_bits (length image_bits) y) st
                             (Py.range side))
              (fun y => drawn image_bits side (y * side)) 0 side (0%nat, img))
    as (st' & Hrun & Hst').
  - intros y s0 Hy Hs0. apply draw_row_drawn; [lia | done].
  - repeat split; simpl; [done | done | done | lia].
  - exists st'. split; [done|]. by rewrite Nat.add_0_l in Hst'.
Qed.
End Drawing.


Lemma drawn_data_lookup image_bits side i :
  (length image_bits <= side * side)%nat -> (i < side * side)%nat ->
  drawn_data image_bits side !! i = Some (drawn_pixel image_bits i).
Proof.
  intros Hn Hi. unfold drawn_data, drawn_pixel.
  destruct (image_bits !! i) as [bit|] eqn:Hbit.
  - rewrite lookup_app_l by (rewrite length_map; by eapply lookup_lt_Some).
    by rewrite list_lookup_fmap, Hbit.
  - apply lookup_ge_None in Hbit.
    rewrite lookup_app_r by (by rewrite length_map).
    rewrite length_map. apply lookup_replicate_2. lia.
Qed.

Lemma draw_bits_spec image_bits :
  let side := Py.ceil_sqrt (length image_bits) in
  draw_bits image_bits = Some (mkImage side side (drawn_data image_bits side)).
Proof.
  intros side. unfold draw_bits. fold side.
  destruct (draw_pixels_drawn image_bits side (Image_new side side))
    as ([index img] & -> & Hidx & Hw & Hh & Hlen & Hpix);
    [done | done | apply length_replicate |].
  simpl in *. destruct img as [w h data]; simpl in *. subst w h.
  do 2 f_equal. apply list_eq_same_length with (side * side)%nat; [| done |].
  - unfold drawn_data. rewrite length_app, length_map, length_replicate.
    pose proof (ceil_sqrt_ge (length image_bits)). fold side in H. lia.
  - intros i x y Hi Hx Hy. rewrite Hpix in Hx by done.
    rewrite drawn_data_lookup in Hy; [congruence | apply ceil_sqrt_ge | done].
Qed.

(** ** Bit expansion *)

Lemma bits_of_bytes_app_acc (acc : list ascii) (bs : list byte) :
  fold_left (fun image_bits b => image_bits ++ byte_bits (Py.byte_val b)) bs acc =
  acc ++ concat (map (fun b => byte_bits (Py.byte_val b)) bs).
Proof.
  revert acc. induction bs as [|b bs IH]; intros acc; simpl.
  - by rewrite app_nil_r.
  - by rewrite IH, app_assoc.
Qed.

Lemma bits_of_bytes_concat (bs : list byte) :
  bits_of_bytes bs = concat (map (fun b => byte_bits (Py.byte_val b)) bs).
Proof. unfold bits_of_bytes. by rewrite bits_of_bytes_app_acc. Qed.

Lemma bits_of_bytes_cons b bs :
  bits_of_bytes (b :: bs) = byte_bits (Py.byte_val b) ++ bits_of_bytes bs.
Proof. by rewrite !bits_of_bytes_concat. Qed.


Lemma byte_bits_msb_first (v : Z) :
  0 <= v <= 255 -> byte_bits v = msb_first v.
Proof.
  intros Hv.
  assert (Hall : forallb (fun k : nat =>
            bool_decide (byte_bits (Z.of_nat k) = msb_first (Z.of_nat k)))
            (seq 0 256) = true) by (vm_compute; reflexivity).
  rewrite forallb_forall in Hall.
  assert (Hk : In (Z.to_nat v) (seq 0 256)) by (apply in_seq; lia).
  apply Hall in Hk. rewrite Z2Nat.id in Hk by lia.
  by apply bool_decide_eq_true in Hk.
Qed.

Lemma byte_val_range (b : byte) : 0 <= Py.byte_val b <= 255.
Proof.
  unfold Py.byte_val. pose proof (Byte.to_N_bounded b). lia.
Qed.

Lemma byte_bits_length (v : Z) : 0 <= v <= 255 -> length (byte_bits v) = 8%nat.
Proof. intros Hv. by rewrite byte_bits_msb_first. Qed.

Lemma bits_of_bytes_length (bs : list byte) :
  length (bits_of_bytes bs) = (8 * length bs)%nat.
Proof.
  induction bs as [|b bs IH]; [done|].
  rewrite bits_of_bytes_cons, length_app, IH,
    byte_bits_length by apply byte_val_range.
  simpl. lia.
Qed.

(** ** Scanning *)



Lemma scanned_app (l1 l2 : list Z) : scanned (l1 ++ l2) = scanned l1 ++ scanned l2.
Proof. unfold scanned. by rewrite map_app, concat_app. Qed.

Lemma scanned_snoc (l : list Z) (v : Z) : scanned (l ++ [v]) = scanned l ++ pixel_chars v.
Proof. rewrite scanned_app. unfold scanned. simpl. by rewrite app_nil_r. Qed.

Lemma scan_pixel_scanned img y x :
  image_wf img -> (y < im_height img)%nat -> (x < im_width img)%nat ->
  scan_pixel img y (scanned (take (y * im_width img + x) (im_data img))) x =
  Some (scanned (take (y * im_width img + Datatypes.S x) (im_data img))).
Proof.
  intros Hwf Hy Hx. unfold scan_pixel, getpixel, in_image.
  destruct (Nat.ltb_spec x (im_width img)); [|lia].
  destruct (Nat.ltb_spec y (im_height img)); [|lia]. simpl.
  assert (Hp : (y * im_width img + x < length (im_data img))%nat)
    by (rewrite Hwf; nia).
  destruct (lookup_lt_is_Some_2 _ _ Hp) as [val Hval]. rewrite Hval. simpl.
  replace (y * im_width img + Datatypes.S x)%nat
    with (Datatypes.S (y * im_width img + x)) by lia.
  rewrite (take_S_r _ _ _ Hval), scanned_snoc. unfold pixel_chars.
  destruct (val =? BLACK); [done|].
  destruct (val =? WHITE); [done|]. by rewrite app_nil_r.
Qed.

Lemma scan_row_scanned img y :
  image_wf img -> (y < im_height img)%nat ->
  Py.for_each (scan_pixel img y) (scanned (take (y * im_width img) (im_data img)))
    (Py.range (im_width img)) =
  Some (scanned (take (Datatypes.S y * im_width img) (im_data img))).
Proof.
  intros Hwf Hy.
  destruct (for_each_seq_inv (scan_pixel img y)
              (fun x rb => rb = scanned (take (y * im_width img + x) (im_data img)))
              0 (im_width img)
              (scanned (take (y * im_width img) (im_data img))))
    as (rb & Hrun & ->).
  - intros x rb Hx ->. eexists. split; [|done].
    apply scan_pixel_scanned; [done | done | lia].
  - by rewrite Nat.add_0_r.
  - etrans; [exact Hrun|]. do 3 f_equal. lia.
Qed.

Lemma scan_bits_spec img :
  image_wf img -> scan_bits img = Some (scanned (im_data img)).
Proof.
  intros Hwf. unfold scan_bits.
  destruct (for_each_seq_inv
              (fun read_bits y =>
                 Py.for_each (scan_pixel img y) read_bits (Py.range (im_width img)))
              (fun y rb => rb = scanned (take (y * im_width img) (im_data img)))
              0 (im_height img) [])
    as (rb & Hrun & ->).
  - intros y rb Hy ->. eexists. split; [|done].
    apply scan_row_scanned; [done | lia].
  - done.
  - etrans; [exact Hrun|]. do 2 f_equal.
    apply take_ge. rewrite Hwf. lia.
Qed.


Lemma scanned_bits (vals : list Z) : Forall is_bit (scanned vals).
Proof.
  induction vals as [|v vals IH]; [constructor|].
  change (scanned (v :: vals)) with (pixel_chars v ++ scanned vals).
  apply Forall_app. split; [|done]. unfold pixel_chars.
  destruct (v =? BLACK); [repeat constructor|].
  destruct (v =? WHITE); [|constructor].
  constructor; [by right | constructor].
Qed.

Lemma scanned_padding (k : nat) : scanned (replicate k GRAY_PADDING) = [].
Proof. induction k as [|k IH]; [done|]. simpl. exact IH. Qed.

Lemma scanned_pixels_of_bits (bits : list ascii) :
  Forall is_bit bits -> scanned (map pixel_of_bit bits) = bits.
Proof.
  induction 1 as [|c bits [-> | ->] _ IH]; [done | |];
    change (scanned (map pixel_of_bit (?c :: bits)))
      with (pixel_chars (pixel_of_bit c) ++ scanned (map pixel_of_bit bits));
    by rewrite IH.
Qed.

(** ** Byte reconstruction *)


Lemma append_block_block_byte read_bits bytes_data i :
  append_block read_bits bytes_data i =
  (fun b => bytes_data ++ [b]) <$> block_byte (block_at read_bits i).
Proof.
  unfold append_block, block_byte, Py.bytearray_append.
  destruct (Py.int2 _) as [v|]; simpl; [|done].
  destruct (v <? 0); [done|]. by destruct (Byte.of_N _).
Qed.

Lemma for_each_append_block read_bits bytes_data (offsets : list nat) :
  Py.for_each (append_block read_bits) bytes_data offsets =
  (fun bs => bytes_data ++ bs) <$> Py.for_each (append_block read_bits) [] offsets.
Proof.
  revert bytes_data. induction offsets as [|i offsets IH]; intros bytes_data; simpl.
  - by rewrite app_nil_r.
  - rewrite !append_block_block_byte.
    destruct (block_byte _) as [b|]; simpl; [|done].
    rewrite (IH (bytes_data ++ [b])), (IH [b]).
    destruct (Py.for_each _ _ _); simpl; [|done]. by rewrite <- app_assoc.
Qed.

Lemma block_at_0 (block rest : list ascii) :
  length block = 8%nat -> block_at (block ++ rest) 0 = block.
Proof.
  intros Hlen. unfold block_at, Py.slice, BITS_PER_BYTE. rewrite drop_0.
  replace (0 + 8 - 0)%nat with (length block) by lia.
  rewrite take_app_length, Hlen. done.
Qed.

Lemma block_at_shift (block rest : list ascii) (i : nat) :
  length block = 8%nat -> block_at (block ++ rest) (8 + i) = block_at rest i.
Proof.
  intros Hlen. unfold block_at, Py.slice.
  rewrite (drop_app_add' block rest 8 i) by done.
  by replace (8 + i + BITS_PER_BYTE - (8 + i))%nat
    with (i + BITS_PER_BYTE - i)%nat by lia.
Qed.

Lemma range3_blocks_S (m : nat) :
  Py.range3 0 (8 + m) 8 = 0%nat :: map (fun i => 8 + i)%nat (Py.range3 0 m 8).
Proof.
  unfold Py.range3.
  replace ((8 + m - 0 + (8 - 1)) / 8)%nat
    with (Datatypes.S ((m - 0 + (8 - 1)) / 8)).
  - rewrite <- cons_seq, <- seq_shift. simpl. f_equal.
    rewrite !map_map. apply map_ext. intros k. lia.
  - replace (8 + m - 0 + (8 - 1))%nat with (1 * 8 + (m - 0 + (8 - 1)))%nat by lia.
    rewrite Nat.div_add_l by lia. lia.
Qed.

Lemma for_each_append_block_shift block rest bytes_data (offsets : list nat) :
  length block = 8%nat ->
  Py.for_each (append_block (block ++ rest)) bytes_data
    (map (fun i => 8 + i)%nat offsets) =
  Py.for_each (append_block rest) bytes_data offsets.
Proof.
  intros Hlen. revert bytes_data.
  induction offsets as [|i offsets IH]; intros bytes_data;
    cbn [Py.for_each map]; [done|].
  rewrite !append_block_block_byte, block_at_shift by done.
  destruct (block_byte _); cbn [fmap option_fmap option_map]; [apply IH | done].
Qed.

(** One full block in front: its byte, then the bytes of the rest. *)
Lemma bytes_of_bits_block (block rest : list ascii) :
  length block = 8%nat ->
  bytes_of_bits (block ++ rest) =
  b ← block_byte block; bs ← bytes_of_bits rest; Some (b :: bs).
Proof.
  intros Hlen. unfold bytes_of_bits, BITS_PER_BYTE.
  rewrite length_app, Hlen, range3_blocks_S. simpl Py.for_each.
  rewrite append_block_block_byte, block_at_0 by done.
  destruct (block_byte block) as [b|]; simpl; [|done].
  rewrite for_each_append_block_shift by done.
  rewrite for_each_append_block.
  by destruct (Py.for_each _ _ _).
Qed.

(** A short last block: one byte, from the block padded with zeros. *)
Lemma bytes_of_bits_short (block : list ascii) :
  (0 < length block < 8)%nat ->
  bytes_of_bits block =
  b ← block_byte (block ++ replicate (8 - length block) "0"%char); Some [b].
Proof.
  intros Hlen. unfold bytes_of_bits, Py.range3, BITS_PER_BYTE.
  replace ((length block - 0 + (8 - 1)) / 8)%nat with 1%nat.
  - simpl Py.for_each. rewrite append_block_block_byte.
    unfold block_at, Py.slice, Py.ljust, BITS_PER_BYTE. rewrite drop_0.
    rewrite take_ge by lia.
    destruct (Nat.ltb_spec (length block) 8); [|lia].
    by destruct (block_byte _).
  - apply Nat.div_unique with (length block - 1)%nat; lia.
Qed.

Lemma bytes_of_bits_nil : bytes_of_bits [] = Some [].
Proof. reflexivity. Qed.

Lemma block_byte_byte_bits (b : byte) :
  block_byte (byte_bits (Py.byte_val b)) = Some b.
Proof. destruct b; vm_compute; reflexivity. Qed.

(** Every block of eight binary digits is the expansion of its byte. *)
Lemma block_byte_bits (block : list ascii) :
  Forall is_bit block -> length block = 8%nat ->
  exists b, block_byte block = Some b /\ byte_bits (Py.byte_val b) = block.
Proof.
  intros Hbits Hlen.
  destruct block as [|c0 [|c1 [|c2 [|c3 [|c4 [|c5 [|c6 [|c7 [|c8 ?]]]]]]]]];
    try discriminate Hlen. clear Hlen.
  bit_cases Hbits; bit_cases Hbits; bit_cases Hbits; bit_cases Hbits;
  bit_cases Hbits; bit_cases Hbits; bit_cases Hbits; bit_cases Hbits;
  (eexists; split; [vm_compute; reflexivity | vm_compute; reflexivity]).
Qed.

(** Induction on a bit string, one block of eight at a time. *)
Lemma blocks_ind (P : list ascii -> Prop) :
  (forall short, (length short < 8)%nat -> P short) ->
  (forall block rest, length block = 8%nat -> P rest -> P (block ++ rest)) ->
  forall bits, P bits.
Proof.
  intros Hshort Hblock bits.
  remember (length bits) as n eqn:Hn. revert bits Hn.
  induction n as [n IH] using lt_wf_ind. intros l ->.
  destruct (Nat.lt_ge_cases (length l) 8) as [Hlt|Hge]; [by apply Hshort|].
  rewrite <- (take_drop 8 l). apply Hblock.
  - rewrite length_take. lia.
  - apply (IH (length (drop 8 l))); [|done]. rewrite length_drop. lia.
Qed.

Lemma bits_of_bytes_bits (bs : list byte) : Forall is_bit (bits_of_bytes bs).
Proof.
  induction bs as [|b bs IH]; [constructor|].
  rewrite bits_of_bytes_cons. apply Forall_app. split; [|done].
  rewrite byte_bits_msb_first by apply byte_val_range.
  unfold msb_first. apply Forall_map, Forall_forall. intros i _.
  destruct (_ =? 1); [by right | by left].
Qed.

Lemma bytes_of_bits_of_bytes (bs : list byte) :
  bytes_of_bits (bits_of_bytes bs) = Some bs.
Proof.
  induction bs as [|b bs IH]; [done|].
  rewrite bits_of_bytes_cons, bytes_of_bits_block
    by (apply byte_bits_length, byte_val_range).
  by rewrite block_byte_byte_bits, IH.
Qed.

(** The byte stage on any string of binary digits: it returns, and its
    bytes expand to the string completed with zeros. *)
Lemma bytes_of_bits_expand (read_bits : list ascii) :
  Forall is_bit read_bits ->
  exists bs, bytes_of_bits read_bits = Some bs /\
             bits_of_bytes bs = read_bits ++ block_padding (length read_bits).
Proof.
  induction read_bits as [short Hshort | block rest Hlen IH] using blocks_ind;
    intros Hbits.
  - destruct (decide (length short = 0%nat)) as [H0|Hpos].
    { apply nil_length_inv in H0 as ->. by exists []. }
    unfold block_padding. rewrite (Nat.mod_small (length short)) by lia.
    rewrite (Nat.mod_small (8 - length short)) by lia.
    destruct (block_byte_bits (short ++ replicate (8 - length short) "0"%char))
      as (b & Hb & Hexp).
    + apply Forall_app. split; [done|]. apply Forall_replicate. by left.
    + rewrite length_app, length_replicate. lia.
    + exists [b]. rewrite bytes_of_bits_short, Hb by lia. split; [done|].
      by rewrite bits_of_bytes_cons, Hexp, app_nil_r.
  - apply Forall_app in Hbits as [Hblock Hrest].
    destruct (block_byte_bits block Hblock Hlen) as (b & Hb & Hexp).
    destruct (IH Hrest) as (bs & Hbs & Hexps).
    exists (b :: bs). rewrite bytes_of_bits_block, Hb, Hbs by done.
    split; [done|]. rewrite bits_of_bytes_cons, Hexp, Hexps, <- app_assoc.
    do 2 f_equal. unfold block_padding. rewrite length_app, Hlen.
    by replace (8 + length rest)%nat with (length rest + 1 * 8)%nat by lia;
      rewrite Nat.Div0.mod_add.
Qed.

Lemma block_byte_int2 (block : list ascii) (b : byte) :
  block_byte block = Some b -> Py.int2 block = Some (Py.byte_val b).
Proof.
  unfold block_byte, Py.byte_val. destruct (Py.int2 block) as [v|]; [|done].
  simpl. destruct (Z.ltb_spec v 0); [done|]. intros Hb.
  apply Byte.to_of_N in Hb. rewrite Hb. f_equal. lia.
Qed.

Lemma block_at_bits (read_bits : list ascii) (i : nat) :
  Forall is_bit read_bits ->
  Forall is_bit (block_at read_bits i) /\ length (block_at read_bits i) = 8%nat.
Proof.
  intros Hbits. unfold block_at, Py.slice, Py.ljust, BITS_PER_BYTE.
  set (block := take (i + 8 - i) (drop i read_bits)).
  assert (Hblock : Forall is_bit block) by by apply Forall_take, Forall_drop.
  assert (Hlen : (length block <= 8)%nat) by (unfold block; rewrite length_take; lia).
  destruct (Nat.ltb_spec (length block) 8).
  - split.
    + apply Forall_app. split; [done|]. apply Forall_replicate. by left.
    + rewrite length_app, length_replicate. lia.
  - split; [done | lia].
Qed.

Lemma bytes_of_bits_app (full rest : list ascii) :
  (length full mod 8 = 0)%nat ->
  bytes_of_bits (full ++ rest) =
  bs ← bytes_of_bits full; bs' ← bytes_of_bits rest; Some (bs ++ bs').
Proof.
  induction full as [short Hshort | block full Hlen IH] using blocks_ind;
    intros Hmod.
  - rewrite Nat.mod_small in Hmod by done.
    apply nil_length_inv in Hmod as ->. simpl.
    by destruct (bytes_of_bits rest).
  - rewrite <- app_assoc.
    rewrite (bytes_of_bits_block block (full ++ rest)),
      (bytes_of_bits_block block full) by done.
    destruct (block_byte block) as [b|]; simpl; [|done].
    rewrite IH.
    + destruct (bytes_of_bits full); simpl; [|done].
      by destruct (bytes_of_bits rest).
    + rewrite length_app, Hlen in Hmod.
      by replace (8 + length full)%nat with (length full + 1 * 8)%nat in Hmod by lia;
        rewrite Nat.Div0.mod_add in Hmod.
Qed.

Lemma drawn_data_length image_bits :
  let side := Py.ceil_sqrt (length image_bits) in
  length (drawn_data image_bits side) = (side * side)%nat.
Proof.
  intros side. unfold drawn_data.
  rewrite length_app, length_map, length_replicate.
  pose proof (ceil_sqrt_ge (length image_bits)) as Hge. fold side in Hge. lia.
Qed.

(** ** The claims on the bitmap codec *)

(** C1. Round-trip law: unpacking the image that packing a non-empty byte
    sequence produces gives back exactly that byte sequence. *)
Theorem round_trip (binary_data : list byte) :
  binary_data <> [] ->
  pack binary_data ≫= unpack = Some (Bytes binary_data).
Proof.
  intros Hne. unfold pack. rewrite draw_bits_spec. simpl.
  set (image_bits := bits_of_bytes binary_data).
  set (side := Py.ceil_sqrt (length image_bits)).
  unfold unpack. rewrite scan_bits_spec by apply drawn_data_length. simpl.
  unfold drawn_data. rewrite scanned_app, scanned_padding, app_nil_r.
  rewrite scanned_pixels_of_bits by apply bits_of_bytes_bits.
  destruct image_bits as [|c rest] eqn:Hbits.
  - apply (f_equal length) in Hbits. subst image_bits.
    rewrite bits_of_bytes_length in Hbits.
    destruct binary_data; [done | simpl in Hbits; lia].
  - rewrite <- Hbits. subst image_bits. by rewrite bytes_of_bits_of_bytes.
Qed.

Lemma round_trip_witness :
  ["P"; "K"]%byte <> [] /\
  pack ["P"; "K"]%byte ≫= unpack = Some (Bytes ["P"; "K"]%byte).
Proof. split; [discriminate | apply round_trip; discriminate]. Defined.

(** C2. Dimension law: for a non-empty byte sequence, with [n] the number
    of its bits, packing gives a square image of side [ceil(sqrt(n))]; its
    first [n] row-major pixels are WHITE for bit 1 and BLACK for bit 0, and
    the other [side * side - n] pixels, at the indices from [n] on, are the
    padding value 127. *)
Theorem dimension_law (binary_data : list byte) :
  binary_data <> [] ->
  let n := (8 * length binary_data)%nat in
  let side := Py.ceil_sqrt n in
  exists img,
    pack binary_data = Some img /\
    length (bits_of_bytes binary_data) = n /\
    im_width img = side /\ im_height img = side /\
    length (im_data img) = (side * side)%nat /\
    ((side - 1) * (side - 1) < n <= side * side)%nat /\
    (forall i bit, bits_of_bytes binary_data !! i = Some bit ->
       im_data img !! i = Some (if Ascii.eqb bit "1" then WHITE else BLACK)) /\
    (forall i, (n <= i < side * side)%nat ->
       im_data img !! i = Some GRAY_PADDING).
Proof.
  intros Hne n side. unfold pack. rewrite draw_bits_spec.
  pose proof (bits_of_bytes_length binary_data) as Hlen. fold n in Hlen.
  rewrite Hlen. fold side. eexists. split; [done|]. simpl.
  assert (Hn : (0 < n)%nat) by (destruct binary_data; [done | simpl in n; lia]).
  pose proof (ceil_sqrt_ge n) as Hge. fold side in Hge.
  pose proof (ceil_sqrt_minimal n Hn) as Hmin. fold side in Hmin.
  pose proof (drawn_data_length (bits_of_bytes binary_data)) as Hdata.
  simpl in Hdata. rewrite Hlen in Hdata. fold side in Hdata.
  repeat split; try done.
  - intros i bit Hbit.
    rewrite drawn_data_lookup; [|lia|].
    + unfold drawn_pixel. by rewrite Hbit.
    + apply lookup_lt_Some in Hbit. lia.
  - intros i Hi. rewrite drawn_data_lookup by lia.
    unfold drawn_pixel. rewrite lookup_ge_None_2; [done | lia].
Qed.

Lemma dimension_law_witness :
  ["A"%byte] <> [] /\
  exists img, pack ["A"%byte] = Some img /\ im_width img = 3%nat /\
              im_data img !! 8%nat = Some GRAY_PADDING.
Proof.
  split; [discriminate|].
  destruct (dimension_law ["A"%byte] ltac:(discriminate))
    as (img & Hpack & _ & Hw & _ & _ & _ & _ & Hpad).
  exists img. split; [exact Hpack|]. split; [exact Hw|].
  apply Hpad. vm_compute. split; [apply le_n | apply le_n].
Defined.

(** C3. MSB-first expansion: the bit string of a byte value [v] between 0
    and 255 has eight characters, the one at position [i] being the bit
    [(v >> (7 - i)) & 1]; the bit string of a byte sequence is the
    concatenation of those of its bytes, in order, so it is eight times as
    long as the sequence. *)
Theorem msb_first_expansion (v : Z) (i : nat) (binary_data : list byte) :
  0 <= v <= 255 -> (i <= 7)%nat ->
  length (byte_bits v) = 8%nat /\
  byte_bits v !! i =
    Some (if Z.land (Z.shiftr v (7 - Z.of_nat i)) 1 =? 1
          then "1"%char else "0"%char) /\
  bits_of_bytes binary_data =
    concat (map (fun b => byte_bits (Py.byte_val b)) binary_data) /\
  length (bits_of_bytes binary_data) = (8 * length binary_data)%nat.
Proof.
  intros Hv Hi. split; [by apply byte_bits_length|].
  split; [|split; [apply bits_of_bytes_concat | apply bits_of_bytes_length]].
  rewrite byte_bits_msb_first by done. unfold msb_first.
  rewrite list_lookup_fmap, lookup_seq_lt by lia. done.
Qed.

Lemma msb_first_expansion_witness :
  byte_bits 65 !! 1%nat = Some "1"%char.
Proof.
  exact (proj1 (proj2 (msb_first_expansion 65 1 []
           ltac:(split; discriminate) ltac:(repeat constructor)))).
Defined.

(** C4, as the program has it. On an empty byte stream the side is
    [ceil(sqrt(0)) = 0] and the image has no pixel: there is no special
    case for an empty input. *)
Theorem pack_empty :
  bits_of_bytes [] = [] /\ Py.ceil_sqrt 0 = 0%nat /\
  pack [] = Some (mkImage 0 0 []).
Proof. repeat split. Qed.

(** C4, as stated, fails: packing the empty byte stream does not give the
    1x1 image whose pixel is the padding value. *)
Lemma pack_empty_not_1x1 :
  pack [] <> Some (mkImage 1 1 [GRAY_PADDING]).
Proof. discriminate. Qed.

(** C7. Truncated-group recovery: when the collected bits are whole groups
    of eight followed by a last group of fewer than eight, no error is
    raised; the whole groups give the bytes they give on their own, and the
    last group, completed on the right with zeros, gives the last byte,
    read most significant bit first. *)
Theorem truncated_group_recovery (full last : list ascii) :
  Forall is_bit (full ++ last) ->
  (length full mod 8 = 0)%nat -> (0 < length last < 8)%nat ->
  exists bs b,
    bytes_of_bits (full ++ last) = Some (bs ++ [b]) /\
    bytes_of_bits full = Some bs /\
    bits_of_bytes bs = full /\
    Py.int2 (last ++ replicate (8 - length last) "0"%char)
      = Some (Py.byte_val b) /\
    byte_bits (Py.byte_val b) = last ++ replicate (8 - length last) "0"%char.
Proof.
  intros Hbits Hfull Hlast. apply Forall_app in Hbits as [Hbf Hbl].
  destruct (bytes_of_bits_expand full Hbf) as (bs & Hbs & Hexp).
  unfold block_padding in Hexp. rewrite Hfull in Hexp. simpl in Hexp.
  rewrite app_nil_r in Hexp.
  destruct (block_byte_bits (last ++ replicate (8 - length last) "0"%char))
    as (b & Hb & Hbexp).
  { apply Forall_app. split; [done|]. apply Forall_replicate. by left. }
  { rewrite length_app, length_replicate. lia. }
  exists bs, b. rewrite bytes_of_bits_app, Hbs by done. simpl.
  rewrite bytes_of_bits_short, Hb by done. simpl.
  repeat split; try done. by apply block_byte_int2.
Qed.

Lemma truncated_group_recovery_witness :
  exists bs b,
    bytes_of_bits (bits_of_bytes ["A"%byte] ++ ["1"; "0"; "1"]%char)
      = Some (bs ++ [b]) /\
    bytes_of_bits (bits_of_bytes ["A"%byte]) = Some bs /\
    byte_bits (Py.byte_val b) = ["1"; "0"; "1"; "0"; "0"; "0"; "0"; "0"]%char.
Proof.
  destruct (truncated_group_recovery (bits_of_bytes ["A"%byte])
              ["1"; "0"; "1"]%char)
    as (bs & b & Hrun & Hfull & _ & _ & Hexp).
  - vm_compute.
    repeat (constructor; [first [by left | by right]|]). constructor.
  - reflexivity.
  - vm_compute. split; repeat constructor.
  - exists bs, b. split; [exact Hrun|]. split; [exact Hfull | exact Hexp].
Defined.

(** C10. Totality of the two stages of unpacking: on every image, whatever
    its size and its pixel values, the scan returns, and collects for each
    pixel in row-major order ['0'] for 0, ['1'] for 255 and nothing
    otherwise, so that every collected character is ['0'] or ['1']; the
    byte stage then returns as well, every group converting to a value
    between 0 and 255. *)
Theorem unpack_total (img : Image) :
  image_wf img ->
  exists read_bits bytes_data,
    scan_bits img = Some read_bits /\
    read_bits = concat (map pixel_chars (im_data img)) /\
    Forall is_bit read_bits /\
    (forall i, exists v, Py.int2 (block_at read_bits i) = Some v /\ 0 <= v <= 255) /\
    bytes_of_bits read_bits = Some bytes_data /\
    unpack img = Some (match read_bits with
                       | [] => EmptyOrInvalidImage
                       | _ => Bytes bytes_data
                       end).
Proof.
  intros Hwf.
  destruct (bytes_of_bits_expand (scanned (im_data img)) (scanned_bits _))
    as (bs & Hbs & _).
  exists (scanned (im_data img)), bs.
  split; [by apply scan_bits_spec|]. split; [done|].
  split; [apply scanned_bits|]. split; [|split; [done|]].
  - intros i.
    destruct (block_at_bits (scanned (im_data img)) i (scanned_bits _))
      as [Hb Hl].
    destruct (block_byte_bits _ Hb Hl) as (b & Hbyte & _).
    exists (Py.byte_val b). split; [by apply block_byte_int2|].
    apply byte_val_range.
  - unfold unpack. rewrite scan_bits_spec by done. simpl.
    destruct (scanned (im_data img)); [done|]. by rewrite Hbs.
Qed.

Lemma unpack_total_witness :
  image_wf (mkImage 2 3 [0; 255; 127; 255; 255; 3]) /\
  exists read_bits bytes_data,
    scan_bits (mkImage 2 3 [0; 255; 127; 255; 255; 3]) = Some read_bits /\
    bytes_of_bits read_bits = Some bytes_data.
Proof.
  split; [reflexivity|].
  destruct (unpack_total (mkImage 2 3 [0; 255; 127; 255; 255; 3]) eq_refl)
    as (read_bits & bytes_data & Hscan & _ & _ & _ & Hbytes & _).
  exists read_bits, bytes_data. split; [exact Hscan | exact Hbytes].
Defined.

(** ** The claims on the archive policy and on the errors *)

Lemma scanned_no_data (vals : list Z) :
  Forall (fun val => val <> BLACK /\ val <> WHITE) vals -> scanned vals = [].
Proof.
  induction 1 as [|val vals [Hb Hw] _ IH]; [done|].
  change (scanned (val :: vals)) with (pixel_chars val ++ scanned vals).
  rewrite IH. unfold pixel_chars.
  destruct (Z.eqb_spec val BLACK); [done|].
  by destruct (Z.eqb_spec val WHITE).
Qed.

(** C5. Empty or invalid image: when no pixel of the image is BLACK or
    WHITE, the scan collects no bit, unpacking signals the empty-image
    error, and [decode_png] prints it and returns: it raises nothing, and
    no byte is rebuilt, no directory made and no archive opened. *)
Theorem empty_image_error `{ZipFile} (png_path dest_folder : string)
    (img : Image) (w : World) :
  images w !! png_path = Some img ->
  image_wf img ->
  Forall (fun val => val <> BLACK /\ val <> WHITE) (im_data img) ->
  scan_bits img = Some [] /\
  unpack img = Some EmptyOrInvalidImage /\
  decode_png png_path dest_folder w =
    (mkWorld (files w) (images w) (dirs w)
             (console w ++ [MsgReading png_path; MsgEmptyImage]), inr tt).
Proof.
  intros Himg Hwf Hpad.
  assert (Hscan : scan_bits img = Some [])
    by (rewrite scan_bits_spec by done; by rewrite scanned_no_data).
  assert (Hun : unpack img = Some EmptyOrInvalidImage)
    by (unfold unpack; by rewrite Hscan).
  split; [done|]. split; [done|].
  unfold decode_png. run_io. rewrite Himg. simpl. rewrite Hun. simpl.
  by rewrite <- app_assoc.
Qed.

Lemma empty_image_error_witness :
  let img := mkImage 2 1 [GRAY_PADDING; 3] in
  let w := mkWorld ∅ {["pad.png"%string := img]} ∅ [] in
  decode_png (H := StoredZip) "pad.png" "out" w =
    (mkWorld ∅ {["pad.png"%string := img]} ∅
             [MsgReading "pad.png"; MsgEmptyImage], inr tt).
Proof.
  intros img w.
  refine (proj2 (proj2 (empty_image_error (H := StoredZip) "pad.png" "out"
                          img w _ _ _))).
  - reflexivity.
  - reflexivity.
  - repeat (constructor; [split; discriminate|]). constructor.
Defined.

(** C6, as the program has it. When the recovered bytes are not an archive,
    [unwrap] prints the malformed-archive error and returns: it raises
    nothing, and writes no file; but it has made the destination directory
    beforehand when no such path existed. *)
Theorem malformed_archive_handling `{ZipFile} (bytes_data : list byte)
    (dest_folder : string) (w : World) :
  zip_entries bytes_data = None ->
  unwrap bytes_data dest_folder w =
    (mkWorld (files w) (images w)
             (if has_path w dest_folder then dirs w
              else {[dest_folder]} ∪ dirs w)
             (console w ++ [MsgExtracting; MsgBadZip]), inr tt).
Proof.
  intros Hbad. unfold unwrap, open_zip. rewrite Hbad. run_io.
  change (has_path (mkWorld _ _ _ _) dest_folder) with (has_path w dest_folder).
  destruct (has_path w dest_folder); simpl; by rewrite <- app_assoc.
Qed.

Lemma malformed_archive_handling_witness :
  (unwrap (H := StoredZip) ["000"%byte] "out" empty_world).2 = inr tt /\
  files (unwrap (H := StoredZip) ["000"%byte] "out" empty_world).1 = ∅.
Proof.
  rewrite (malformed_archive_handling (H := StoredZip) ["000"%byte] "out"
             empty_world eq_refl).
  split; reflexivity.
Defined.

(** C6, as stated, fails: decoding an image whose bytes are not an archive
    reports the error and yet writes to the file system, the destination
    directory being made before the archive is opened. *)
Lemma malformed_archive_makedirs :
  let img := mkImage 3 3 [0; 0; 0; 0; 0; 0; 0; 0; GRAY_PADDING] in
  let w := mkWorld ∅ {["in.png"%string := img]} ∅ [] in
  let w' := (decode_png (H := StoredZip) "in.png" "out" w).1 in
  unpack img = Some (Bytes ["000"%byte]) /\
  zip_entries (ZipFile := StoredZip) ["000"%byte] = None /\
  console w' = [MsgReading "in.png"; MsgExtracting; MsgBadZip] /\
  dirs w = ∅ /\ dirs w' = {["out"%string]} /\ dirs w' <> dirs w.
Proof.
  intros img w w'. split; [reflexivity|]. split; [reflexivity|].
  split; [reflexivity|]. split; [reflexivity|].
  assert (Hd : dirs w' = {["out"%string]}).
  { subst w' w img. vm_compute. reflexivity. }
  split; [done|]. rewrite Hd. simpl. set_solver.
Qed.

(** C8. Archive pass-through: for a source whose extension is [.zip],
    [wrap] returns the bytes of the file unchanged, whatever the archive
    library would do with them: nothing is compressed again, and this is
    the byte stream that goes on to the packing stage. *)
Theorem archive_passthrough `{ZipFile} (file_path : string)
    (contents : list byte) (w : World) :
  str_lower (splitext_ext file_path) = ".zip"%string ->
  files w !! file_path = Some contents ->
  wrap file_path w =
    (mkWorld (files w) (images w) (dirs w) (console w ++ [MsgAlreadyZip]),
     inr contents).
Proof.
  intros Hext Hfile. unfold wrap. rewrite Hext. simpl. run_io.
  by rewrite Hfile.
Qed.

Lemma archive_passthrough_witness :
  let w := mkWorld {["up/Data.ZIP"%string := ["P"; "K"; "x"]%byte]} ∅ ∅ [] in
  (wrap (H := StoredZip) "up/Data.ZIP" w).2 = inr ["P"; "K"; "x"]%byte.
Proof.
  intros w.
  rewrite (archive_passthrough (H := StoredZip) "up/Data.ZIP"
             ["P"; "K"; "x"]%byte w eq_refl eq_refl).
  reflexivity.
Defined.

(** C9. Archive symmetry: for a source that is not an archive, with
    contents [C] and base name [name], [wrap] returns the single-entry
    archive that the library writes for [name] and [C], and leaves the
    files alone; whenever the library reads that archive back as its one
    entry, [unwrap] of these bytes into a directory writes exactly one
    file, the one of [name] under that directory, with contents [C], and
    reports [name] as the one recovered. *)
Theorem archive_symmetry `{ZipFile} (file_path dest_folder : string)
    (contents : list byte) (w : World) :
  str_lower (splitext_ext file_path) <> ".zip"%string ->
  files w !! file_path = Some contents ->
  zip_entries (zip_single (basename file_path) contents)
    = Some [(basename file_path, contents)] ->
  exists w1 w2,
    wrap file_path w = (w1, inr (zip_single (basename file_path) contents)) /\
    files w1 = files w /\ images w1 = images w /\ dirs w1 = dirs w /\
    unwrap (zip_single (basename file_path) contents) dest_folder w1
      = (w2, inr tt) /\
    files w2 = <[zip_target dest_folder (basename file_path) := contents]>
                 (files w) /\
    last (console w2) = Some (MsgRecovered dest_folder [basename file_path]).
Proof.
  intros Hext Hfile Hzip. apply String.eqb_neq in Hext.
  destruct (wrap file_path w) as [w1 r1] eqn:Hwrap.
  revert Hwrap. unfold wrap. rewrite Hext. run_io. rewrite Hfile. simpl.
  intros [= <- <-]. eexists. simpl.
  destruct (unwrap (zip_single (basename file_path) contents) dest_folder _)
    as [w2 r2] eqn:Hunwrap.
  exists w2. split; [reflexivity|]. simpl.
  split; [done|]. split; [done|]. split; [done|].
  revert Hunwrap. unfold unwrap, open_zip. rewrite Hzip. run_io.
  match goal with |- context [negb ?b] => destruct b end; simpl;
    intros [= <- <-]; simpl; (split; [done|]); (split; [done|]);
    by rewrite last_snoc.
Qed.

Lemma archive_symmetry_witness :
  let w := mkWorld {["docs/a.txt"%string := ["h"; "i"]%byte]} ∅ ∅ [] in
  exists w1 w2,
    wrap (H := StoredZip) "docs/a.txt" w
      = (w1, inr (stored_single "a.txt" ["h"; "i"]%byte)) /\
    unwrap (H := StoredZip) (stored_single "a.txt" ["h"; "i"]%byte) "out" w1
      = (w2, inr tt) /\
    files w2 = <["out/a.txt"%string := ["h"; "i"]%byte]> (files w).
Proof.
  intros w.
  destruct (archive_symmetry (H := StoredZip) "docs/a.txt" "out"
              ["h"; "i"]%byte w)
    as (w1 & w2 & Hwrap & _ & _ & _ & Hunwrap & Hfiles & _).
  - discriminate.
  - reflexivity.
  - reflexivity.
  - exists w1, w2. split; [exact Hwrap|]. split; [exact Hunwrap | exact Hfiles].
Defined.

(** * Further properties of the program *)

(** ** Exceptions *)



(** ** Unreadable sources *)



(** X3. Unreadable image: when no image has the given path, [decode_png]
    prints the decoding error and returns; nothing else changes, and in
    particular the destination directory is not made. *)
Theorem decode_png_unreadable `{ZipFile} (png_path dest_folder : string)
    (w : World) :
  images w !! png_path = None ->
  decode_png png_path dest_folder w =
    (printed w [MsgReading png_path; MsgDecodingError], inr tt).
Proof.
  intros Hnone. unfold decode_png, printed. run_io. rewrite Hnone. simpl.
  by rewrite <- app_assoc.
Qed.

Lemma decode_png_unreadable_witness :
  dirs (decode_png (H := StoredZip) "gone.png" "out" empty_world).1 = ∅.
Proof.
  rewrite (decode_png_unreadable (H := StoredZip) "gone.png" "out"
             empty_world eq_refl).
  reflexivity.
Defined.

(** ** Extraction *)







(** ** More on the bitmap codec *)

Lemma pack_spec (binary_data : list byte) :
  let side := Py.ceil_sqrt (8 * length binary_data) in
  pack binary_data =
    Some (mkImage side side (drawn_data (bits_of_bytes binary_data) side)).
Proof.
  intros side. unfold pack. rewrite draw_bits_spec. simpl.
  by rewrite bits_of_bytes_length.
Qed.

Lemma scanned_drawn_data (binary_data : list byte) (side : nat) :
  scanned (drawn_data (bits_of_bytes binary_data) side)
  = bits_of_bytes binary_data.
Proof.
  unfold drawn_data. rewrite scanned_app, scanned_padding, app_nil_r.
  apply scanned_pixels_of_bits, bits_of_bytes_bits.
Qed.

Lemma ceil_sqrt_pos (n : nat) : (0 < n -> 0 < Py.ceil_sqrt n)%nat.
Proof. intros Hn. pose proof (ceil_sqrt_ge n). nia. Qed.

(** X5. Packing is total and keeps the image well formed: on every byte
    stream it returns a square image with one value per pixel, each of
    them 0, 255 or 127, and the image has no pixel exactly when the stream
    is empty. *)
Theorem pack_total (binary_data : list byte) :
  exists img,
    pack binary_data = Some img /\
    image_wf img /\ im_width img = im_height img /\
    Forall (fun val => val = BLACK \/ val = WHITE \/ val = GRAY_PADDING)
           (im_data img) /\
    (im_width img = 0%nat <-> binary_data = []).
Proof.
  eexists. split; [apply pack_spec|]. simpl.
  pose proof (drawn_data_length (bits_of_bytes binary_data)) as Hlen.
  simpl in Hlen. rewrite bits_of_bytes_length in Hlen.
  split; [exact Hlen|]. split; [done|]. split.
  - unfold drawn_data. apply Forall_app. split.
    + apply Forall_map, Forall_forall. intros c _. unfold pixel_of_bit.
      destruct (Ascii.eqb c "1"); [right; by left | by left].
    + apply Forall_replicate. right; by right.
  - split.
    + intros Hside. destruct binary_data as [|b bs]; [done|].
      pose proof (ceil_sqrt_pos (8 * length (b :: bs))) as Hpos.
      simpl in Hpos, Hside. lia.
    + by intros ->.
Qed.

(** X6. Packing is injective: two byte streams with the same image are the
    same stream. *)
Theorem pack_injective (data1 data2 : list byte) :
  pack data1 = pack data2 -> data1 = data2.
Proof.
  rewrite !pack_spec. intros Heq.
  apply (f_equal (fun r => scanned <$> (im_data <$> r))) in Heq.
  simpl in Heq. injection Heq as Hdata. rewrite !scanned_drawn_data in Hdata.
  apply (f_equal bytes_of_bits) in Hdata.
  rewrite !bytes_of_bits_of_bytes in Hdata. by injection Hdata.
Qed.

Lemma pack_injective_witness :
  pack ["A"%byte] = pack ["A"%byte] /\ ["A"%byte] = ["A"%byte].
Proof. split; [reflexivity | apply pack_injective; reflexivity]. Defined.

Lemma scanned_filter (vals : list Z) :
  scanned (filter is_data vals) = scanned vals.
Proof.
  induction vals as [|val vals IH]; [done|].
  change (scanned (val :: vals)) with (pixel_chars val ++ scanned vals).
  rewrite filter_cons. destruct (decide (is_data val)) as [Hd|Hn].
  - change (scanned (val :: filter is_data vals))
      with (pixel_chars val ++ scanned (filter is_data vals)).
    by rewrite IH.
  - rewrite IH. unfold pixel_chars, is_data in *.
    destruct (Z.eqb_spec val BLACK); [tauto|].
    destruct (Z.eqb_spec val WHITE); [tauto | done].
Qed.

Lemma scanned_length (vals : list Z) :
  length (scanned vals) = length (filter is_data vals).
Proof.
  induction vals as [|val vals IH]; [done|].
  change (scanned (val :: vals)) with (pixel_chars val ++ scanned vals).
  rewrite length_app, IH, filter_cons. unfold pixel_chars, is_data.
  destruct (decide _) as [[->| ->]|Hn]; [done | done |].
  destruct (Z.eqb_spec val BLACK); [tauto|].
  destruct (Z.eqb_spec val WHITE); [tauto | done].
Qed.

(** X7. Unpacking reads the data pixels only: two images, of whatever
    sizes, whose pixels of value 0 or 255 are the same in row-major order
    unpack to the same result, whatever their other pixels are and
    wherever these lie. *)
Theorem unpack_data_pixels (img1 img2 : Image) :
  image_wf img1 -> image_wf img2 ->
  filter is_data (im_data img1) = filter is_data (im_data img2) ->
  unpack img1 = unpack img2.
Proof.
  intros Hwf1 Hwf2 Hdata. unfold unpack.
  rewrite !scan_bits_spec by done.
  by rewrite <- (scanned_filter (im_data img1)), Hdata, scanned_filter.
Qed.

Lemma unpack_data_pixels_witness :
  unpack (mkImage 3 1 [0; 127; 255]) = unpack (mkImage 2 2 [9; 0; 255; 200]).
Proof.
  apply unpack_data_pixels; reflexivity.
Defined.

(** X8. Size of the unpacked stream: when unpacking returns bytes, there is
    at least one, and their number is the number of data pixels divided by
    eight, rounded up. *)
Theorem unpack_length (img : Image) (bytes_data : list byte) :
  image_wf img ->
  unpack img = Some (Bytes bytes_data) ->
  bytes_data <> [] /\
  length bytes_data = ((length (filter is_data (im_data img)) + 7) / 8)%nat.
Proof.
  intros Hwf. unfold unpack. rewrite scan_bits_spec by done. simpl.
  rewrite <- scanned_length.
  destruct (bytes_of_bits_expand (scanned (im_data img)) (scanned_bits _))
    as (bs & Hbs & Hexp).
  destruct (scanned (im_data img)) as [|c rest] eqn:Hsc; [done|].
  rewrite Hbs. cbn [fmap option_fmap option_map]. intros [= <-].
  apply (f_equal length) in Hexp.
  rewrite bits_of_bytes_length, length_app in Hexp.
  unfold block_padding in Hexp. rewrite length_replicate in Hexp.
  set (n := length (c :: rest)) in *.
  assert (Hn : (0 < n)%nat) by (unfold n; simpl; lia).
  pose proof (Nat.div_mod_eq n 8) as Hdm.
  pose proof (Nat.mod_upper_bound n 8 ltac:(lia)) as Hm.
  split; [intros ->; simpl in Hexp; lia|].
  assert (Hlen : length bs = ((n + 7) / 8)%nat); [|exact Hlen].
  { destruct (decide (n mod 8 = 0)%nat) as [H0|Hne].
    - rewrite H0 in Hexp. change ((8 - 0) mod 8)%nat with 0%nat in Hexp.
      apply Nat.div_unique with 7%nat; lia.
    - rewrite (Nat.mod_small (8 - n mod 8)) in Hexp by lia.
      apply Nat.div_unique with (n mod 8 - 1)%nat; lia. }
Qed.

Lemma unpack_length_witness :
  image_wf (mkImage 3 1 [0; 127; 255]) /\
  unpack (mkImage 3 1 [0; 127; 255]) = Some (Bytes ["064"%byte]) /\
  length ["064"%byte] = 1%nat.
Proof.
  split; [reflexivity|]. split; [reflexivity|].
  destruct (unpack_length (mkImage 3 1 [0; 127; 255]) ["064"%byte]
              eq_refl eq_refl) as [_ Hlen].
  exact Hlen.
Defined.

(** ** From a file to an image and back *)













(** ** What the two directions leave alone *)

Lemma list_ascii_of_string_app (s1 s2 : string) :
  list_ascii_of_string (s1 ++ s2)%string
  = list_ascii_of_string s1 ++ list_ascii_of_string s2.
Proof. induction s1 as [|c s1 IH]; [done|]. simpl. by rewrite IH. Qed.

(** X12. The saved path: the path under which [encode_file] saves ends in
    [.png], whatever the case of the letters, and asking for that path
    again changes nothing. *)
Theorem png_dest_endswith (png_dest_path : string) :
  endswith (str_lower (png_dest png_dest_path)) ".png" = true /\
  png_dest (png_dest png_dest_path) = png_dest png_dest_path.
Proof.
  assert (Hends : endswith (str_lower (png_dest png_dest_path)) ".png" = true).
  { unfold png_dest.
    destruct (endswith (str_lower png_dest_path) ".png") eqn:He; [done|].
    unfold endswith, str_lower.
    rewrite !list_ascii_of_string_of_list_ascii, list_ascii_of_string_app,
      map_app, length_app.
    apply bool_decide_eq_true_2.
    rewrite drop_app_length'; [done|]. simpl. lia. }
  split; [done|]. unfold png_dest at 1. by rewrite Hends.
Qed.




(** X15. Later pixels do not change earlier bytes: in an image, of
    whatever size, whose raster starts with the pixels of a non-empty byte
    stream, unpacking returns that stream followed by the bytes of the
    data pixels that come after, whatever these are. *)
Theorem unpack_data_prefix (binary_data : list byte) (rest : list Z)
    (width height : nat) :
  let img := mkImage width height
               (map pixel_of_bit (bits_of_bytes binary_data) ++ rest) in
  binary_data <> [] -> image_wf img ->
  exists extra,
    bytes_of_bits (scanned rest) = Some extra /\
    unpack img = Some (Bytes (binary_data ++ extra)).
Proof.
  intros img Hne Hwf.
  destruct (bytes_of_bits_expand (scanned rest) (scanned_bits _))
    as (extra & Hextra & _).
  exists extra. split; [done|]. unfold unpack.
  rewrite scan_bits_spec by done. simpl.
  rewrite scanned_app, scanned_pixels_of_bits by apply bits_of_bytes_bits.
  destruct (bits_of_bytes binary_data ++ scanned rest) as [|c l] eqn:Hbits.
  - apply (f_equal length) in Hbits.
    rewrite length_app, bits_of_bytes_length in Hbits.
    destruct binary_data; [done | simpl in Hbits; lia].
  - rewrite <- Hbits, bytes_of_bits_app.
    + by rewrite bytes_of_bits_of_bytes, Hextra.
    + rewrite bits_of_bytes_length, Nat.mul_comm. apply Nat.Div0.mod_mul.
Qed.

Lemma unpack_data_prefix_witness :
  unpack (mkImage 4 3 (map pixel_of_bit (bits_of_bytes ["A"%byte])
                         ++ [127; 255; 9; 0]))
  = Some (Bytes ["A"; "128"]%byte).
Proof.
  destruct (unpack_data_prefix ["A"%byte] [127; 255; 9; 0] 4 3
              ltac:(discriminate) eq_refl) as (extra & Hextra & Hun).
  rewrite Hun. vm_compute in Hextra. injection Hextra as <-. reflexivity.
Defined.
